(** * A shallow embedding of [PasswordBuilder] (src/src/lib.rs)

    The builder is a record of five fields; each mutator is a record update;
    [build] composes the alphabet by string concatenation and then runs a loop
    that draws an index with [gen_range(0..allowed_characters.len())] and pushes
    the byte at that index, cast to a [char].

    Rust strings are modelled as the sequence of their [char]s (Unicode scalar
    values, as [N]); their bytes ([as_bytes], [len]) are the UTF-8 encoding of
    that sequence. The random generator is a state [Rng] threaded through the
    loop with an abstract [gen_range]: [None] is the panic of [rand] on an empty
    range. *)

From Stdlib Require Import List NArith ZArith Strings.String Strings.Ascii Lia.
Import ListNotations.

(** ** Rust characters, bytes and strings *)

Definition char := N.
Definition u8 := N.
Definition RString := list char.

(** UTF-8 encoding of one [char], as done by [String::push] and [+=]. *)
Definition encode_utf8 (c : char) : list u8 :=
  if (c <? 0x80)%N then [c]
  else if (c <? 0x800)%N then [0xC0 + c / 64; 0x80 + c mod 64]%N
  else if (c <? 0x10000)%N then
    [0xE0 + c / 4096; 0x80 + (c / 64) mod 64; 0x80 + c mod 64]%N
  else
    [0xF0 + c / 262144; 0x80 + (c / 4096) mod 64;
     0x80 + (c / 64) mod 64; 0x80 + c mod 64]%N.

(** [String::as_bytes] *)
Definition as_bytes (s : RString) : list u8 := flat_map encode_utf8 s.

(** [String::len]: the length in bytes. *)
Definition len (s : RString) : nat := List.length (as_bytes s).

(** [b as char] for [b : u8]: the code point with the byte's value. *)
Definition u8_as_char (b : u8) : char := b.

(** [String::push] *)
Definition push (s : RString) (c : char) : RString := s ++ [c].

(** A Rust string literal whose characters are all written in the
    source as plain ASCII. *)
Definition lit (s : string) : RString := map N_of_ascii (list_ascii_of_string s).

(** ** The builder *)

Record PasswordBuilder := mkPasswordBuilder {
  length : Z;
  include_special_characters_flag : bool;
  use_numbers_flag : bool;
  use_uppercase_flag : bool;
  use_underlines_flag : bool
}.

(** The inherent [fn default()] (length 20); [Self::default()] in [new]
    resolves to it, not to the derived [Default] impl. *)
Definition default : PasswordBuilder :=
  {| length := 20;
     include_special_characters_flag := false;
     use_numbers_flag := false;
     use_uppercase_flag := false;
     use_underlines_flag := false |}.

Definition new : PasswordBuilder := default.

Definition set_length (self : PasswordBuilder) (n : Z) : PasswordBuilder :=
  {| length := n;
     include_special_characters_flag := include_special_characters_flag self;
     use_numbers_flag := use_numbers_flag self;
     use_uppercase_flag := use_uppercase_flag self;
     use_underlines_flag := use_underlines_flag self |}.

Definition include_special_characters (self : PasswordBuilder) : PasswordBuilder :=
  {| length := length self;
     include_special_characters_flag := true;
     use_numbers_flag := use_numbers_flag self;
     use_uppercase_flag := use_uppercase_flag self;
     use_underlines_flag := use_underlines_flag self |}.

Definition use_numbers (self : PasswordBuilder) : PasswordBuilder :=
  {| length := length self;
     include_special_characters_flag := include_special_characters_flag self;
     use_numbers_flag := true;
     use_uppercase_flag := use_uppercase_flag self;
     use_underlines_flag := use_underlines_flag self |}.

Definition use_uppercase (self : PasswordBuilder) : PasswordBuilder :=
  {| length := length self;
     include_special_characters_flag := include_special_characters_flag self;
     use_numbers_flag := use_numbers_flag self;
     use_uppercase_flag := true;
     use_underlines_flag := use_underlines_flag self |}.

Definition use_underlines (self : PasswordBuilder) : PasswordBuilder :=
  {| length := length self;
     include_special_characters_flag := include_special_characters_flag self;
     use_numbers_flag := use_numbers_flag self;
     use_uppercase_flag := use_uppercase_flag self;
     use_underlines_flag := true |}.

(** The literals of [build]. The special-character literal is
    [!] then an escaped double quote (code 34) then the rest. *)
Definition lowercase_literal : RString := lit "qwertyuiopasdfghjklzxcvbnm".
Definition special_literal : RString :=
  lit "!" ++ [34%N] ++ lit "$#%'()*+`-./:;<=>?@[\]^{|}~&".
Definition numbers_literal : RString := lit "1234567890".
Definition uppercase_literal : RString := lit "QWERTYUIOPASDFGHJKLZXCVBNM".
Definition underline_literal : RString := lit "_".

(** The alphabet, built by [+=] as in lines 55-68. *)
Definition allowed_characters (self : PasswordBuilder) : RString :=
  let a := lowercase_literal in
  let a := if include_special_characters_flag self then a ++ special_literal else a in
  let a := if use_numbers_flag self then a ++ numbers_literal else a in
  let a := if use_uppercase_flag self then a ++ uppercase_literal else a in
  let a := if use_underlines_flag self then a ++ underline_literal else a in
  a.

Section Build.

Variable Rng : Type.

(** [rng.gen_range(lo..hi)]: a draw and the next generator state, or
    [None] for the panic. *)
Variable gen_range : Rng -> nat -> nat -> option (nat * Rng).

(** The loop of lines 71-75, [n] iterations still to run. *)
Fixpoint build_loop (allowed : RString) (n : nat) (rng : Rng)
    (password : RString) : option (RString * Rng) :=
  match n with
  | O => Some (password, rng)
  | S n' =>
      match gen_range rng 0 (len allowed) with
      | None => None
      | Some (rand_num, rng') =>
          match nth_error (as_bytes allowed) rand_num with
          | None => None
          | Some b => build_loop allowed n' rng' (push password (u8_as_char b))
          end
      end
  end.

(** [build]: [for _ in 0..self.length] runs [max(length, 0)] times. *)
Definition build (self : PasswordBuilder) (rng : Rng) : option (RString * Rng) :=
  build_loop (allowed_characters self) (Z.to_nat (length self)) rng [].

(** The contract of [gen_range] from [rand]: a draw in [lo..hi], and a
    panic exactly when the range is empty. *)
Definition gen_range_contract : Prop :=
  forall r lo hi,
    match gen_range r lo hi with
    | None => hi <= lo
    | Some (k, _) => lo <= k < hi
    end.

End Build.

Arguments build_loop {Rng} gen_range allowed n rng password.
Arguments build {Rng} gen_range self rng.
Arguments gen_range_contract {Rng} gen_range.

(** A concrete generator: a counter reduced modulo the range width. *)
Definition counter_gen_range (r : nat) (lo hi : nat) : option (nat * nat) :=
  if lo <? hi then Some (lo + r mod (hi - lo), S r) else None.

(** ** The alphabet as the specification composes it

    The fixed order of the specification: lowercase letters, then the
    special characters, digits, uppercase letters and the underscore, each
    when its flag is on. *)
Definition spec_lowercase : RString := lit "qwertyuiopasdfghjklzxcvbnm".
Definition spec_special_set : RString :=
  lit "!" ++ [34%N] ++ lit "$#%'()*+`-./:;<=>?@[\]^{|}~&".
Definition spec_digits : RString := lit "1234567890".
Definition spec_uppercase : RString := lit "QWERTYUIOPASDFGHJKLZXCVBNM".

Definition composed_alphabet (self : PasswordBuilder) : RString :=
  spec_lowercase
  ++ (if include_special_characters_flag self then spec_special_set else [])
  ++ (if use_numbers_flag self then spec_digits else [])
  ++ (if use_uppercase_flag self then spec_uppercase else [])
  ++ (if use_underlines_flag self then lit "_" else []).

(** The four flag mutators, as a type to quantify over. *)
Inductive flag_mutator :=
| MSpecialCharacters
| MNumbers
| MUppercase
| MUnderlines.

Definition apply_flag_mutator (m : flag_mutator) : PasswordBuilder -> PasswordBuilder :=
  match m with
  | MSpecialCharacters => include_special_characters
  | MNumbers => use_numbers
  | MUppercase => use_uppercase
  | MUnderlines => use_underlines
  end.

(** The configuration of the 1000-character scenario. *)
Definition full_builder : PasswordBuilder :=
  use_underlines (use_uppercase (use_numbers
    (include_special_characters (set_length new 1000)))).

(** ** General lemmas *)

Definition is_ascii (c : char) : Prop := (c < 128)%N.

Lemma encode_utf8_ascii c : is_ascii c -> encode_utf8 c = [c].
Proof.
  unfold is_ascii, encode_utf8; intro H.
  apply N.ltb_lt in H; rewrite H; reflexivity.
Qed.

Lemma as_bytes_ascii s : Forall is_ascii s -> as_bytes s = s.
Proof.
  induction 1 as [|c s Hc _ IH]; [reflexivity|].
  unfold as_bytes in *; simpl; rewrite encode_utf8_ascii by exact Hc.
  simpl; rewrite IH; reflexivity.
Qed.

Lemma allowed_characters_ascii self : Forall is_ascii (allowed_characters self).
Proof.
  assert (Hb : forallb (fun c => (c <? 128)%N) (allowed_characters self) = true)
    by (destruct self as [? [] [] [] []]; reflexivity).
  apply Forall_forall; intros c Hc.
  rewrite forallb_forall in Hb; apply N.ltb_lt, Hb, Hc.
Qed.

Lemma as_bytes_allowed self :
  as_bytes (allowed_characters self) = allowed_characters self.
Proof. apply as_bytes_ascii, allowed_characters_ascii. Qed.

Lemma allowed_characters_composed self :
  allowed_characters self = composed_alphabet self.
Proof.
  destruct self as [? [] [] [] []]; reflexivity.
Qed.

Lemma allowed_characters_length self :
  (26 <= List.length (allowed_characters self))%nat.
Proof.
  destruct self as [? [] [] [] []]; cbv; lia.
Qed.

Section Loop.

Context {Rng : Type} (gen_range : Rng -> nat -> nat -> option (nat * Rng)).

(** Whatever the generator does, the loop only appends bytes of the
    alphabet, each cast to a [char]. *)
Lemma build_loop_appends allowed n rng password password' rng' :
  build_loop gen_range allowed n rng password = Some (password', rng') ->
  exists sfx, password' = password ++ sfx
              /\ Forall (fun c => In c (as_bytes allowed)) sfx.
Proof.
  revert rng password.
  induction n as [|n IH]; intros rng password H; simpl in H.
  - injection H as <- _; exists []; rewrite app_nil_r; split; [reflexivity | constructor].
  - destruct (gen_range rng 0 (len allowed)) as [[k rng1]|]; [|discriminate].
    destruct (nth_error (as_bytes allowed) k) as [b|] eqn:Hb; [|discriminate].
    destruct (IH _ _ H) as [sfx [-> Hsfx]].
    exists (b :: sfx); split.
    + unfold push, u8_as_char; rewrite <- app_assoc; reflexivity.
    + constructor; [eapply nth_error_In; exact Hb | exact Hsfx].
Qed.

Hypothesis Hgen : gen_range_contract gen_range.

(** With a generator that keeps its contract and a non-empty alphabet, the
    loop runs all its iterations without a panic. *)
Lemma build_loop_total allowed n rng password :
  allowed <> [] -> as_bytes allowed = allowed ->
  exists sfx rng', build_loop gen_range allowed n rng password = Some (password ++ sfx, rng')
                   /\ List.length sfx = n.
Proof.
  intros Hne Hbytes; revert rng password.
  induction n as [|n IH]; intros rng password; simpl.
  - exists [], rng; rewrite app_nil_r; split; reflexivity.
  - pose proof (Hgen rng 0 (len allowed)) as Hk.
    assert (Hlen : (0 < len allowed)%nat)
      by (unfold len; rewrite Hbytes; destruct allowed; [congruence | simpl; lia]).
    destruct (gen_range rng 0 (len allowed)) as [[k rng1]|]; [|lia].
    assert (Hkb : (k < List.length (as_bytes allowed))%nat) by (unfold len in Hk; lia).
    apply nth_error_Some in Hkb.
    destruct (nth_error (as_bytes allowed) k) as [b|]; [|congruence].
    destruct (IH rng1 (push password (u8_as_char b))) as [sfx [rng' [Hrun Hl]]].
    exists (u8_as_char b :: sfx), rng'; split.
    + rewrite Hrun; unfold push; rewrite <- app_assoc; reflexivity.
    + simpl; rewrite Hl; reflexivity.
Qed.

End Loop.

Lemma build_spec {Rng} (gen_range : Rng -> nat -> nat -> option (nat * Rng))
  (Hgen : gen_range_contract gen_range) self rng :
  exists password rng', build gen_range self rng = Some (password, rng')
    /\ List.length password = Z.to_nat (length self)
    /\ Forall (fun c => In c (allowed_characters self)) password.
Proof.
  assert (Hne : allowed_characters self <> []).
  { pose proof (allowed_characters_length self) as H; intro E; rewrite E in H; simpl in H; lia. }
  destruct (build_loop_total gen_range Hgen (allowed_characters self)
              (Z.to_nat (length self)) rng [] Hne (as_bytes_allowed self))
    as [sfx [rng' [Hrun Hl]]].
  exists sfx, rng'; unfold build; rewrite Hrun; split; [reflexivity|]; split; [exact Hl|].
  destruct (build_loop_appends gen_range _ _ _ _ _ _ Hrun) as [sfx' [E Hin]].
  simpl in E; subst sfx'; rewrite as_bytes_allowed in Hin; exact Hin.
Qed.

Lemma NoDup_of_nodup (l : list N) : nodup N.eq_dec l = l -> NoDup l.
Proof. intro E; rewrite <- E; apply NoDup_nodup. Qed.

Lemma counter_gen_range_contract : gen_range_contract counter_gen_range.
Proof.
  intros r lo hi; unfold counter_gen_range.
  destruct (Nat.ltb_spec lo hi) as [H|H]; [|exact H].
  pose proof (Nat.mod_upper_bound r (hi - lo)); lia.
Qed.

Example build_length_five :
  option_map (fun p => List.length (fst p))
    (build counter_gen_range (set_length new 5) 0) = Some 5%nat.
Proof. reflexivity. Qed.

Example build_negative_empty :
  build counter_gen_range (use_numbers (set_length new 0)) 7 = Some ([], 7).
Proof. reflexivity. Qed.

(** ** Claims *)

(** C1: for every configuration and every generator keeping the contract
    of [gen_range], [build] returns (without a panic) a string whose
    character count is exactly [max(length, 0)]. *)
Theorem build_length_max {Rng} (gen_range : Rng -> nat -> nat -> option (nat * Rng))
  (Hgen : gen_range_contract gen_range) (self : PasswordBuilder) (rng : Rng) :
  match build gen_range self rng with
  | Some (password, _) => Z.of_nat (List.length password) = Z.max (length self) 0
  | None => False
  end.
Proof.
  destruct (build_spec gen_range Hgen self rng) as [pw [rng' [-> [Hl _]]]].
  rewrite Hl; lia.
Qed.

Lemma build_length_max_witness :
  gen_range_contract counter_gen_range /\
  match build counter_gen_range (set_length new (-3)) 0 with
  | Some (password, _) => Z.of_nat (List.length password) = Z.max (-3) 0
  | None => False
  end.
Proof.
  split; [exact counter_gen_range_contract|].
  exact (build_length_max counter_gen_range counter_gen_range_contract (set_length new (-3)) 0).
Defined.

(** C2: the alphabet [build] composes is the concatenation, in the fixed
    order lowercase, specials, digits, uppercase, underscore, of the parts
    whose flags are on; and every character of the result of [build] belongs
    to it. *)
Theorem build_chars_in_composed_alphabet {Rng}
  (gen_range : Rng -> nat -> nat -> option (nat * Rng))
  (Hgen : gen_range_contract gen_range) (self : PasswordBuilder) (rng : Rng) :
  allowed_characters self = composed_alphabet self /\
  match build gen_range self rng with
  | Some (password, _) => Forall (fun c => In c (composed_alphabet self)) password
  | None => False
  end.
Proof.
  rewrite <- allowed_characters_composed; split; [reflexivity|].
  destruct (build_spec gen_range Hgen self rng) as [pw [rng' [-> [_ Hin]]]].
  exact Hin.
Qed.

Lemma build_chars_in_composed_alphabet_witness :
  gen_range_contract counter_gen_range /\
  (allowed_characters (use_numbers (set_length new 12)) =
     composed_alphabet (use_numbers (set_length new 12)) /\
   match build counter_gen_range (use_numbers (set_length new 12)) 5 with
   | Some (password, _) =>
       Forall (fun c => In c (composed_alphabet (use_numbers (set_length new 12)))) password
   | None => False
   end).
Proof.
  split; [exact counter_gen_range_contract|].
  exact (build_chars_in_composed_alphabet counter_gen_range counter_gen_range_contract
           (use_numbers (set_length new 12)) 5).
Defined.

(** C3 (counterexample): with the special characters on, the alphabet grows
    by 30 characters, not 31. *)
Lemma special_set_not_31 :
  List.length (allowed_characters (include_special_characters new))
  <> (List.length (allowed_characters new) + 31)%nat.
Proof. vm_compute; discriminate. Qed.

(** C3 (amended): the special-character set appended when
    [include_special_characters] is on is exactly the literal of the
    specification; it has 30 characters and none is repeated. *)
Theorem special_set_30_nodup :
  allowed_characters (include_special_characters new) = lowercase_literal ++ spec_special_set
  /\ List.length spec_special_set = 30%nat
  /\ NoDup spec_special_set.
Proof.
  split; [reflexivity|]; split; [reflexivity|].
  apply NoDup_of_nodup; vm_compute; reflexivity.
Qed.

(** C4 (counterexample): with all four flags on, the alphabet has 93
    distinct characters, not 94. *)
Lemma full_alphabet_not_94 :
  List.length (nodup N.eq_dec (allowed_characters full_builder)) <> 94%nat.
Proof. vm_compute; discriminate. Qed.

(** C4 (amended): with all four flags on, the composed alphabet consists of
    exactly 93 characters, none repeated, and a [build] of length 1000 on
    that configuration returns 1000 characters, all drawn from it. *)
Theorem full_alphabet_93 {Rng} (gen_range : Rng -> nat -> nat -> option (nat * Rng))
  (Hgen : gen_range_contract gen_range) (rng : Rng) :
  NoDup (allowed_characters full_builder)
  /\ List.length (allowed_characters full_builder) = 93%nat
  /\ match build gen_range full_builder rng with
     | Some (password, _) =>
         List.length password = 1000%nat
         /\ Forall (fun c => In c (allowed_characters full_builder)) password
     | None => False
     end.
Proof.
  split; [apply NoDup_of_nodup; vm_compute; reflexivity|].
  split; [reflexivity|].
  destruct (build_spec gen_range Hgen full_builder rng) as [pw [rng' [-> [Hl Hin]]]].
  split; [exact Hl | exact Hin].
Qed.

Lemma full_alphabet_93_witness :
  gen_range_contract counter_gen_range /\
  (NoDup (allowed_characters full_builder)
   /\ List.length (allowed_characters full_builder) = 93%nat
   /\ match build counter_gen_range full_builder 0 with
      | Some (password, _) =>
          List.length password = 1000%nat
          /\ Forall (fun c => In c (allowed_characters full_builder)) password
      | None => False
      end).
Proof.
  split; [exact counter_gen_range_contract|].
  exact (full_alphabet_93 counter_gen_range counter_gen_range_contract 0).
Defined.

(** C5: [new] has length 20 and all four flags off, and building it draws
    only from the 26 lowercase letters. *)
Theorem new_defaults_lowercase {Rng} (gen_range : Rng -> nat -> nat -> option (nat * Rng))
  (Hgen : gen_range_contract gen_range) (rng : Rng) :
  new = {| length := 20;
           include_special_characters_flag := false;
           use_numbers_flag := false;
           use_uppercase_flag := false;
           use_underlines_flag := false |}
  /\ allowed_characters new = spec_lowercase
  /\ List.length spec_lowercase = 26%nat
  /\ match build gen_range new rng with
     | Some (password, _) => Forall (fun c => In c spec_lowercase) password
     | None => False
     end.
Proof.
  split; [reflexivity|]; split; [reflexivity|]; split; [reflexivity|].
  destruct (build_spec gen_range Hgen new rng) as [pw [rng' [-> [_ Hin]]]].
  exact Hin.
Qed.

Lemma new_defaults_lowercase_witness :
  gen_range_contract counter_gen_range /\
  (new = {| length := 20;
            include_special_characters_flag := false;
            use_numbers_flag := false;
            use_uppercase_flag := false;
            use_underlines_flag := false |}
   /\ allowed_characters new = spec_lowercase
   /\ List.length spec_lowercase = 26%nat
   /\ match build counter_gen_range new 3 with
      | Some (password, _) => Forall (fun c => In c spec_lowercase) password
      | None => False
      end).
Proof.
  split; [exact counter_gen_range_contract|].
  exact (new_defaults_lowercase counter_gen_range counter_gen_range_contract 3).
Defined.

(** C6: [set_length] stores any integer unchanged, and a configuration whose
    length is at most 0 builds the empty string, with no draw from the
    generator and no panic, whatever the generator. *)
Theorem nonpositive_length_empty {Rng} (gen_range : Rng -> nat -> nat -> option (nat * Rng))
  (self : PasswordBuilder) (rng : Rng) :
  (forall n, length (set_length self n) = n)
  /\ ((length self <= 0)%Z -> build gen_range self rng = Some ([], rng)).
Proof.
  split; [reflexivity|].
  intro Hlen.
  unfold build; replace (Z.to_nat (length self)) with 0%nat by lia; reflexivity.
Qed.

Lemma nonpositive_length_empty_witness :
  length (set_length new (-5)) = (-5)%Z /\
  build counter_gen_range (set_length new (-5)) 9 = Some ([], 9).
Proof.
  split.
  - apply (proj1 (nonpositive_length_empty counter_gen_range new 9)).
  - apply (proj2 (nonpositive_length_empty counter_gen_range (set_length new (-5)) 9)).
    simpl; lia.
Defined.

(** C7: the alphabet is never empty, so the range [0..len] of every draw in
    [build] is non-empty, and [build] never panics with a generator keeping
    the contract of [gen_range]. *)
Theorem build_never_panics {Rng} (gen_range : Rng -> nat -> nat -> option (nat * Rng))
  (Hgen : gen_range_contract gen_range) (self : PasswordBuilder) (rng : Rng) :
  (0 < len (allowed_characters self))%nat
  /\ build gen_range self rng <> None.
Proof.
  split.
  - unfold len; rewrite as_bytes_allowed.
    apply (Nat.lt_le_trans _ 26); [lia | apply allowed_characters_length].
  - destruct (build_spec gen_range Hgen self rng) as [pw [rng' [-> _]]]; discriminate.
Qed.

Lemma build_never_panics_witness :
  gen_range_contract counter_gen_range /\
  ((0 < len (allowed_characters full_builder))%nat
   /\ build counter_gen_range full_builder 11 <> None).
Proof.
  split; [exact counter_gen_range_contract|].
  exact (build_never_panics counter_gen_range counter_gen_range_contract full_builder 11).
Defined.

(** C8: every mutator is idempotent. *)
Theorem mutators_idempotent (self : PasswordBuilder) (n : Z) :
  set_length (set_length self n) n = set_length self n
  /\ include_special_characters (include_special_characters self)
     = include_special_characters self
  /\ use_numbers (use_numbers self) = use_numbers self
  /\ use_uppercase (use_uppercase self) = use_uppercase self
  /\ use_underlines (use_underlines self) = use_underlines self.
Proof.
  destruct self; repeat split.
Qed.

(** C9: any two flag mutators commute, on the configuration and hence on
    the composed alphabet. *)
Theorem flag_mutators_commute (f g : flag_mutator) (self : PasswordBuilder) :
  apply_flag_mutator f (apply_flag_mutator g self)
  = apply_flag_mutator g (apply_flag_mutator f self)
  /\ allowed_characters (apply_flag_mutator f (apply_flag_mutator g self))
     = allowed_characters (apply_flag_mutator g (apply_flag_mutator f self)).
Proof.
  assert (E : apply_flag_mutator f (apply_flag_mutator g self)
              = apply_flag_mutator g (apply_flag_mutator f self))
    by (destruct f, g, self; reflexivity).
  rewrite E; split; reflexivity.
Qed.

(** C10: every character of the alphabet is ASCII, so its bytes are its
    characters: the byte at index [i], cast to a [char], is the [i]-th
    character; and every password [build] returns is pure ASCII, its byte
    length equal to its character count. *)
Theorem alphabet_ascii_bytes (self : PasswordBuilder) :
  Forall is_ascii (allowed_characters self)
  /\ List.length (as_bytes (allowed_characters self))
     = List.length (allowed_characters self)
  /\ (forall i, option_map u8_as_char (nth_error (as_bytes (allowed_characters self)) i)
               = nth_error (allowed_characters self) i)
  /\ (forall Rng (gen_range : Rng -> nat -> nat -> option (nat * Rng)) rng password rng',
        build gen_range self rng = Some (password, rng') ->
        Forall is_ascii password
        /\ List.length (as_bytes password) = List.length password).
Proof.
  pose proof (allowed_characters_ascii self) as Hasc.
  split; [exact Hasc|].
  split; [rewrite as_bytes_allowed; reflexivity|].
  split.
  - intro i; rewrite as_bytes_allowed; unfold u8_as_char, u8, char, RString in *.
    assert (Hid : forall o : option N, option_map (fun b : N => b) o = o)
      by (intros [|]; reflexivity).
    apply Hid.
  - intros Rng gen_range rng password rng' H.
    destruct (build_loop_appends gen_range _ _ _ _ _ _ H) as [sfx [E Hin]].
    simpl in E; subst sfx.
    rewrite as_bytes_allowed in Hin.
    assert (Hp : Forall is_ascii password).
    { apply Forall_forall; intros c Hc.
      rewrite Forall_forall in Hin, Hasc; apply Hasc, Hin, Hc. }
    split; [exact Hp | rewrite as_bytes_ascii by exact Hp; reflexivity].
Qed.

(** ** Further properties of the builder *)

(** The impl generated by [#[derive(Default)]] (line 3): every field at its
    type's default, so length 0. It is reached through the [Default] trait,
    e.g. [<PasswordBuilder as Default>::default()]. *)
Definition derived_default : PasswordBuilder :=
  {| length := 0;
     include_special_characters_flag := false;
     use_numbers_flag := false;
     use_uppercase_flag := false;
     use_underlines_flag := false |}.

(** A chain [self.m1().m2()...] of flag mutators, applied left to right. *)
Definition apply_flag_mutators (ms : list flag_mutator) (self : PasswordBuilder)
  : PasswordBuilder :=
  fold_left (fun b m => apply_flag_mutator m b) ms self.

Definition flag_mutator_eqb (m1 m2 : flag_mutator) : bool :=
  match m1, m2 with
  | MSpecialCharacters, MSpecialCharacters | MNumbers, MNumbers
  | MUppercase, MUppercase | MUnderlines, MUnderlines => true
  | _, _ => false
  end.

Section Draws.

Context {Rng : Type} (gen_range : Rng -> nat -> nat -> option (nat * Rng)).

(** [n] successive draws of [gen_range(0..hi)], in order. *)
Fixpoint draw_indices (hi n : nat) (rng : Rng) : option (list nat * Rng) :=
  match n with
  | O => Some ([], rng)
  | S n' =>
      match gen_range rng 0 hi with
      | None => None
      | Some (k, rng1) =>
          match draw_indices hi n' rng1 with
          | None => None
          | Some (ks, rng') => Some (k :: ks, rng')
          end
      end
  end.

End Draws.

(** Boolean checks on concrete character lists. *)
Definition incl_check (l1 l2 : list N) : bool :=
  forallb (fun c => existsb (N.eqb c) l2) l1.

Definition disjoint_check (l1 l2 : list N) : bool :=
  forallb (fun c => negb (existsb (N.eqb c) l2)) l1.

Lemma disjoint_of_check l1 l2 :
  disjoint_check l1 l2 = true -> forall c, In c l1 -> ~ In c l2.
Proof.
  unfold disjoint_check; rewrite forallb_forall; intros H c H1 H2.
  specialize (H c H1); apply Bool.negb_true_iff in H.
  assert (existsb (N.eqb c) l2 = true)
    by (apply existsb_exists; exists c; split; [exact H2 | apply N.eqb_refl]).
  congruence.
Qed.

Lemma allowed_characters_in self c :
  In c (allowed_characters self) <->
  In c lowercase_literal
  \/ (include_special_characters_flag self = true /\ In c special_literal)
  \/ (use_numbers_flag self = true /\ In c numbers_literal)
  \/ (use_uppercase_flag self = true /\ In c uppercase_literal)
  \/ (use_underlines_flag self = true /\ In c underline_literal).
Proof.
  destruct self as [? [] [] [] []]; unfold allowed_characters; simpl;
    rewrite ?in_app_iff; intuition congruence.
Qed.

Lemma build_loop_split {Rng} (gen_range : Rng -> nat -> nat -> option (nat * Rng))
  allowed n k rng password :
  build_loop gen_range allowed (n + k) rng password =
  match build_loop gen_range allowed n rng password with
  | Some (p, r) => build_loop gen_range allowed k r p
  | None => None
  end.
Proof.
  revert rng password; induction n as [|n IH]; intros rng password; simpl; [reflexivity|].
  destruct (gen_range rng 0 (len allowed)) as [[j r1]|]; [|reflexivity].
  destruct (nth_error (as_bytes allowed) j); [apply IH | reflexivity].
Qed.

Lemma flag_mutator_eqb_spec m1 m2 : flag_mutator_eqb m1 m2 = true <-> m1 = m2.
Proof. destruct m1, m2; simpl; split; congruence. Qed.

Lemma existsb_flag_mutator_In m ms :
  existsb (flag_mutator_eqb m) ms = true <-> In m ms.
Proof.
  rewrite existsb_exists; split.
  - intros [m' [Hin Heq]]; apply flag_mutator_eqb_spec in Heq; subst; exact Hin.
  - intro Hin; exists m; split; [exact Hin | apply flag_mutator_eqb_spec; reflexivity].
Qed.

Lemma apply_flag_mutators_fields ms self :
  apply_flag_mutators ms self =
  {| length := length self;
     include_special_characters_flag :=
       include_special_characters_flag self || existsb (flag_mutator_eqb MSpecialCharacters) ms;
     use_numbers_flag := use_numbers_flag self || existsb (flag_mutator_eqb MNumbers) ms;
     use_uppercase_flag := use_uppercase_flag self || existsb (flag_mutator_eqb MUppercase) ms;
     use_underlines_flag := use_underlines_flag self || existsb (flag_mutator_eqb MUnderlines) ms |}.
Proof.
  unfold apply_flag_mutators; revert self.
  induction ms as [|m ms IH]; intro self; simpl.
  - destruct self; simpl; rewrite !Bool.orb_false_r; reflexivity.
  - rewrite IH; destruct m, self as [? [] [] [] []]; reflexivity.
Qed.

Lemma build_loop_draws {Rng} (gen_range : Rng -> nat -> nat -> option (nat * Rng))
  (Hgen : gen_range_contract gen_range) allowed n rng password :
  as_bytes allowed = allowed ->
  build_loop gen_range allowed n rng password =
  match draw_indices gen_range (len allowed) n rng with
  | Some (ks, rng') => Some (password ++ map (fun k => nth k allowed 0%N) ks, rng')
  | None => None
  end.
Proof.
  intro Hbytes; revert rng password.
  induction n as [|n IH]; intros rng password; simpl.
  - rewrite app_nil_r; reflexivity.
  - pose proof (Hgen rng 0 (len allowed)) as Hk.
    destruct (gen_range rng 0 (len allowed)) as [[k rng1]|]; [|reflexivity].
    assert (Hkl : (k < List.length allowed)%nat).
    { unfold len in Hk; rewrite Hbytes in Hk; destruct Hk as [_ Hk]; exact Hk. }
    rewrite Hbytes.
    rewrite (nth_error_nth' (A:=u8) allowed 0%N Hkl).
    rewrite IH; unfold push, u8_as_char.
    destruct (draw_indices gen_range (len allowed) n rng1) as [[ks rng']|]; [|reflexivity].
    rewrite <- app_assoc; reflexivity.
Qed.

(** X1: turning on a flag never removes a character from the alphabet. *)
Theorem flag_mutator_grows_alphabet (m : flag_mutator) (self : PasswordBuilder) (c : char)
  (Hc : In c (allowed_characters self)) :
  In c (allowed_characters (apply_flag_mutator m self)).
Proof.
  rewrite allowed_characters_in in *.
  destruct m, self as [? [] [] [] []]; simpl in *; tauto.
Qed.

Lemma flag_mutator_grows_alphabet_witness :
  In 49%N (allowed_characters (use_numbers new)) /\
  In 49%N (allowed_characters (apply_flag_mutator MUppercase (use_numbers new))).
Proof.
  split; [vm_compute; tauto|].
  apply flag_mutator_grows_alphabet; vm_compute; tauto.
Defined.

(** X2: the alphabet's size is 26, plus 30 with the special characters,
    10 with the digits, 26 with the uppercase letters and 1 with the
    underscore; its byte length is the same. *)
Theorem allowed_characters_size (self : PasswordBuilder) :
  len (allowed_characters self) = List.length (allowed_characters self)
  /\ List.length (allowed_characters self) =
     (26 + (if include_special_characters_flag self then 30 else 0)
         + (if use_numbers_flag self then 10 else 0)
         + (if use_uppercase_flag self then 26 else 0)
         + (if use_underlines_flag self then 1 else 0))%nat.
Proof.
  split; [unfold len; rewrite as_bytes_allowed; reflexivity|].
  destruct self as [? [] [] [] []]; reflexivity.
Qed.

(** X3: for every configuration the alphabet has no repeated character, so
    a uniform draw of an index is a uniform draw of a character. *)
Theorem allowed_characters_nodup (self : PasswordBuilder) :
  NoDup (allowed_characters self).
Proof.
  destruct self as [? [] [] [] []]; apply NoDup_of_nodup; vm_compute; reflexivity.
Qed.

Lemma allowed_characters_excludes_disabled self c (Hc : In c (allowed_characters self)) :
  (include_special_characters_flag self = false -> ~ In c special_literal)
  /\ (use_numbers_flag self = false -> ~ In c numbers_literal)
  /\ (use_uppercase_flag self = false -> ~ In c uppercase_literal)
  /\ (use_underlines_flag self = false -> ~ In c underline_literal).
Proof.
  destruct self as [l [] [] [] []];
    repeat split; intro Hf; try discriminate;
    (refine (disjoint_of_check _ _ _ c Hc); vm_compute; reflexivity).
Qed.

(** X4: a category whose flag is off never appears in a built password: no
    special character, digit, uppercase letter or underscore unless its
    flag is on (the categories share no character). *)
Theorem build_excludes_disabled_categories {Rng}
  (gen_range : Rng -> nat -> nat -> option (nat * Rng)) (self : PasswordBuilder) (rng : Rng) :
  match build gen_range self rng with
  | Some (password, _) =>
      Forall (fun c =>
        (include_special_characters_flag self = false -> ~ In c special_literal)
        /\ (use_numbers_flag self = false -> ~ In c numbers_literal)
        /\ (use_uppercase_flag self = false -> ~ In c uppercase_literal)
        /\ (use_underlines_flag self = false -> ~ In c underline_literal)) password
  | None => True
  end.
Proof.
  destruct (build gen_range self rng) as [[pw rng']|] eqn:H; [|exact I].
  destruct (build_loop_appends gen_range _ _ _ _ _ _ H) as [sfx [E Hin]].
  simpl in E; subst sfx; rewrite as_bytes_allowed in Hin.
  rewrite Forall_forall in *; intros c Hc.
  apply allowed_characters_excludes_disabled, Hin, Hc.
Qed.

(** X5: from the same generator state, the password built with length
    [n + k] extends the one built with length [n] by [k] characters. *)
Theorem build_longer_extends {Rng} (gen_range : Rng -> nat -> nat -> option (nat * Rng))
  (Hgen : gen_range_contract gen_range) (self : PasswordBuilder) (n k : Z) (rng : Rng)
  (Hn : (0 <= n)%Z) (Hk : (0 <= k)%Z) :
  match build gen_range (set_length self n) rng,
        build gen_range (set_length self (n + k)) rng with
  | Some (p1, _), Some (p2, _) =>
      exists sfx, p2 = p1 ++ sfx /\ Z.of_nat (List.length sfx) = k
  | _, _ => False
  end.
Proof.
  unfold build; simpl length.
  change (allowed_characters (set_length self ?x)) with (allowed_characters self).
  rewrite Z2Nat.inj_add by assumption.
  rewrite build_loop_split.
  assert (Hne : allowed_characters self <> []).
  { pose proof (allowed_characters_length self) as H; intro E; rewrite E in H; simpl in H; lia. }
  destruct (build_loop_total gen_range Hgen (allowed_characters self) (Z.to_nat n) rng []
              Hne (as_bytes_allowed self)) as [p1 [r1 [H1 _]]].
  rewrite H1.
  destruct (build_loop_total gen_range Hgen (allowed_characters self) (Z.to_nat k) r1 ([] ++ p1)
              Hne (as_bytes_allowed self)) as [sfx [r2 [H2 Hl]]].
  rewrite H2; exists sfx; split; [reflexivity | rewrite Hl; lia].
Qed.

Lemma build_longer_extends_witness :
  gen_range_contract counter_gen_range /\ (0 <= 4)%Z /\ (0 <= 3)%Z /\
  match build counter_gen_range (set_length (use_numbers new) 4) 2,
        build counter_gen_range (set_length (use_numbers new) (4 + 3)) 2 with
  | Some (p1, _), Some (p2, _) =>
      exists sfx, p2 = p1 ++ sfx /\ Z.of_nat (List.length sfx) = 3%Z
  | _, _ => False
  end.
Proof.
  split; [exact counter_gen_range_contract|].
  split; [lia|]; split; [lia|].
  apply (build_longer_extends counter_gen_range counter_gen_range_contract
           (use_numbers new) 4 3 2); lia.
Defined.

(** X6: the built password is exactly the alphabet's characters at the
    successive draws of [gen_range(0..len)], in draw order. *)
Theorem build_is_draws_mapped {Rng} (gen_range : Rng -> nat -> nat -> option (nat * Rng))
  (Hgen : gen_range_contract gen_range) (self : PasswordBuilder) (rng : Rng) :
  build gen_range self rng =
  match draw_indices gen_range (len (allowed_characters self)) (Z.to_nat (length self)) rng with
  | Some (ks, rng') => Some (map (fun k => nth k (allowed_characters self) 0%N) ks, rng')
  | None => None
  end.
Proof.
  unfold build; rewrite (build_loop_draws gen_range Hgen _ _ _ _ (as_bytes_allowed self)).
  reflexivity.
Qed.

Lemma build_is_draws_mapped_witness :
  gen_range_contract counter_gen_range /\
  build counter_gen_range full_builder 4 =
  match draw_indices counter_gen_range (len (allowed_characters full_builder))
          (Z.to_nat (length full_builder)) 4 with
  | Some (ks, rng') => Some (map (fun k => nth k (allowed_characters full_builder) 0%N) ks, rng')
  | None => None
  end.
Proof.
  split; [exact counter_gen_range_contract|].
  exact (build_is_draws_mapped counter_gen_range counter_gen_range_contract full_builder 4).
Defined.

(** X7: two chains of flag mutators that use the same mutators (in any
    order, any number of times) give the same configuration. *)
Theorem flag_chain_depends_on_members (ms1 ms2 : list flag_mutator) (self : PasswordBuilder)
  (Hsame : forall m, In m ms1 <-> In m ms2) :
  apply_flag_mutators ms1 self = apply_flag_mutators ms2 self.
Proof.
  assert (E : forall m, existsb (flag_mutator_eqb m) ms1 = existsb (flag_mutator_eqb m) ms2).
  { intro m; apply Bool.eq_iff_eq_true; rewrite !existsb_flag_mutator_In; apply Hsame. }
  rewrite !apply_flag_mutators_fields, !E; reflexivity.
Qed.

Lemma flag_chain_depends_on_members_witness :
  (forall m, In m [MNumbers; MUppercase; MNumbers] <-> In m [MUppercase; MNumbers]) /\
  apply_flag_mutators [MNumbers; MUppercase; MNumbers] new
  = apply_flag_mutators [MUppercase; MNumbers] new.
Proof.
  split; [intro m; simpl; tauto|].
  apply flag_chain_depends_on_members; intro m; simpl; tauto.
Defined.

(** X8: the builder given by the derived [Default] impl has length 0, so it
    builds the empty string whatever flags are then turned on, without a
    draw. *)
Theorem derived_default_builds_empty {Rng}
  (gen_range : Rng -> nat -> nat -> option (nat * Rng)) (ms : list flag_mutator) (rng : Rng) :
  build gen_range (apply_flag_mutators ms derived_default) rng = Some ([], rng).
Proof.
  rewrite apply_flag_mutators_fields; reflexivity.
Qed.

(** X9: the password's byte length ([String::len]) equals
    [max(length, 0)]. *)
Theorem build_byte_length {Rng} (gen_range : Rng -> nat -> nat -> option (nat * Rng))
  (Hgen : gen_range_contract gen_range) (self : PasswordBuilder) (rng : Rng) :
  match build gen_range self rng with
  | Some (password, _) => Z.of_nat (len password) = Z.max (length self) 0
  | None => False
  end.
Proof.
  destruct (build_spec gen_range Hgen self rng) as [pw [rng' [-> [Hl Hin]]]].
  assert (Hp : Forall is_ascii pw).
  { pose proof (allowed_characters_ascii self) as Hasc.
    rewrite Forall_forall in *; intros c Hc; apply Hasc, Hin, Hc. }
  unfold len; rewrite as_bytes_ascii by exact Hp.
  change (@List.length u8 pw) with (@List.length char pw); rewrite Hl; lia.
Qed.

Lemma build_byte_length_witness :
  gen_range_contract counter_gen_range /\
  match build counter_gen_range full_builder 1 with
  | Some (password, _) => Z.of_nat (len password) = Z.max (length full_builder) 0
  | None => False
  end.
Proof.
  split; [exact counter_gen_range_contract|].
  exact (build_byte_length counter_gen_range counter_gen_range_contract full_builder 1).
Defined.

(** X10: the last [set_length] of a chain wins, and [set_length] commutes
    with every flag mutator. *)
Theorem set_length_composition (self : PasswordBuilder) (m : flag_mutator) (a b : Z) :
  set_length (set_length self a) b = set_length self b
  /\ apply_flag_mutator m (set_length self a) = set_length (apply_flag_mutator m self) a.
Proof.
  split; [reflexivity | destruct m; reflexivity].
Qed.
